(** * The fan-out counter graph of [langgraph/module-7-stress-testing/studio/agent.py]

    The script builds a four-node state graph: [prepare_tasks] fixes the
    number of tasks, the router [spawn_router] turns that number into a list
    of [Send] commands, every [Send] runs [increment_node], the reducer
    declared on the [counter] field sums the contributions, [collector_node]
    is the barrier and [result_node] compares the counter with 10000.

    The node functions, the router and the wiring of the graph are embedded
    from the script.  The engine that executes a compiled graph is the
    LangGraph library, which the script imports; [Module Host] gives the part
    of its documented behaviour the script relies on (channels with reducers,
    super-steps, edges that fire when their source node has run). *)

From stdpp Require Import gmap strings list fin_maps pretty.

Open Scope string_scope.
Open Scope list_scope.
Open Scope Z_scope.

(** ** Python values and exceptions *)

(** The values the state dictionary holds: (unbounded) integers and strings. *)
Inductive value :=
  | VInt (z : Z)
  | VStr (s : string).

Global Instance value_eq_dec : EqDecision value.
Proof. solve_decision. Defined.

Inductive error :=
  | KeyError (k : string)
  | TypeError
  | InvalidUpdateError
  | GraphRecursionError.

Inductive result (A : Type) :=
  | Ok (a : A)
  | Raise (e : error).
Global Arguments Ok {A} a.
Global Arguments Raise {A} e.

(** [CounterState] is a [TypedDict]: at run time a plain dictionary with
    string keys, in which any field may be missing.  A node returns such a
    dictionary too, holding only the fields it updates. *)
Abbreviation CounterState := (gmap string value).

(** ** Console output and exceptions

    A computation yields the arguments of the [print] calls it made, oldest
    first, and either a value or the exception that stopped it. *)
Definition M (A : Type) : Type := list string * result A.

Global Instance M_ret : MRet M := λ A a, ([], Ok a).
Global Instance M_bind : MBind M := λ A B f m,
  match m with
  | (out, Ok a) => let '(out', r) := f a in (out ++ out', r)
  | (out, Raise e) => (out, Raise e)
  end.

Definition print (line : string) : M unit := ([line], Ok tt).
Definition raise {A} (e : error) : M A := ([], Raise e).
Definition lift {A} (r : result A) : M A := ([], r).

Global Instance result_ret : MRet result := λ A a, Ok a.
Global Instance result_bind : MBind result := λ A B f r,
  match r with
  | Ok a => f a
  | Raise e => Raise e
  end.
Global Instance result_fmap : FMap result := λ A B f r,
  match r with
  | Ok a => Ok (f a)
  | Raise e => Raise e
  end.

Definition output {A} (m : M A) : list string := fst m.
Definition outcome {A} (m : M A) : result A := snd m.

(** ** The Python primitives the script uses *)

(** [d[k]] *)
Definition subscript (d : CounterState) (k : string) : M value :=
  match d !! k with
  | Some v => mret v
  | None => raise (KeyError k)
  end.

(** [d.get(k, dflt)] *)
Definition dict_get (d : CounterState) (k : string) (dflt : value) : value :=
  default dflt (d !! k).

(** [range(n)]: empty when [n <= 0]; not defined on strings. *)
Definition range (n : value) : M (list Z) :=
  match n with
  | VInt z => mret (seqZ 0 z)
  | VStr _ => raise TypeError
  end.

(** [operator.add] *)
Definition operator_add (a b : value) : result value :=
  match a, b with
  | VInt x, VInt y => Ok (VInt (x + y))
  | VStr x, VStr y => Ok (VStr (x +:+ y))
  | _, _ => Raise TypeError
  end.

(** [a == b] *)
Definition py_eq (a b : value) : bool := bool_decide (a = b).

(** How an f-string renders a value. *)
Definition format (v : value) : string :=
  match v with
  | VInt z => pretty z
  | VStr s => s
  end.

(** [langgraph.types.Send] *)
Record Send := mkSend { send_node : string; send_arg : CounterState }.

(** ** 1. State definition

    A field annotated with a binary operator is merged with that operator,
    starting from the default value of its type ([int()] is 0); a plain field
    keeps the last value written to it. *)
Inductive channel :=
  | LastValue
  | BinaryOperatorAggregate (op : value → value → result value)
                            (init : option value).

Definition CounterState_schema : list (string * channel) :=
  [ ("counter", BinaryOperatorAggregate operator_add (Some (VInt 0)));
    ("tasks_to_spawn", LastValue);
    ("message", LastValue) ].

(** ** 2. Node implementations *)

Definition prepare_tasks (state : CounterState) : M CounterState :=
  print "Node: prepare_tasks";;
  mret {[ "tasks_to_spawn" := VInt 10000 ]}.

Definition increment_node (state : CounterState) : M CounterState :=
  mret {[ "counter" := VInt 1 ]}.

Definition collector_node (state : CounterState) : M CounterState :=
  print "Node: collector (all increments complete)";;
  mret ∅.

Definition result_node (state : CounterState) : M CounterState :=
  let expected := VInt 10000 in
  let got := dict_get state "counter" (VInt 0) in
  print ("Node: result (Expected=" +:+ format expected
           +:+ ", Got=" +:+ format got +:+ ")");;
  let msg :=
    if py_eq got expected
    then "✅ Success! Counter reached " +:+ format got +:+ " as expected."
    else "❌ Failure! Expected " +:+ format expected
           +:+ ", but got " +:+ format got +:+ "." in
  mret {[ "message" := VStr msg ]}.

(** ** 3. Router function *)

Definition spawn_router (state : CounterState) : M (list Send) :=
  print "Routing... Spawning tasks.";;
  n ← subscript state "tasks_to_spawn";
  r ← range n;
  mret ((λ _, mkSend "increment" ∅) <$> r).

(** ** The execution host

    What the script takes from LangGraph: a graph is a table of nodes, static
    edges and conditional edges; a run proceeds in super-steps.  In a
    super-step every scheduled task runs on the state as it was when the step
    began, then the values the tasks wrote are merged channel by channel, and
    the edges leaving the nodes that ran decide the tasks of the next step.
    The run ends when no task is left. *)
Module Host.

Definition START : string := "__start__".
Definition END : string := "__end__".

Definition node_fn : Type := CounterState → M CounterState.
Definition router_fn : Type := CounterState → M (list Send).

Record StateGraph := mkGraph {
  schema : list (string * channel);
  nodes : gmap string node_fn;
  edges : list (string * string);
  branches : list (string * router_fn * list string)
}.

Definition new_graph (sch : list (string * channel)) : StateGraph :=
  mkGraph sch ∅ [] [].

Definition add_node (name : string) (f : node_fn) (g : StateGraph) :=
  mkGraph (schema g) (<[name := f]> (nodes g)) (edges g) (branches g).

Definition add_edge (src dst : string) (g : StateGraph) :=
  mkGraph (schema g) (nodes g) (edges g ++ [(src, dst)]) (branches g).

Definition add_conditional_edges
    (src : string) (path : router_fn) (path_map : list string)
    (g : StateGraph) :=
  mkGraph (schema g) (nodes g) (edges g)
          (branches g ++ [(src, path, path_map)]).

(** *** Channels *)

Fixpoint reduce (op : value → value → result value)
    (acc : value) (vals : list value) : result value :=
  match vals with
  | [] => Ok acc
  | v :: vals' => acc' ← op acc v; reduce op acc' vals'
  end.

(** One channel receives, in task order, the values written to it during a
    super-step. *)
Definition update_channel
    (c : channel) (cur : option value) (vals : list value)
    : result (option value) :=
  match c with
  | LastValue =>
      match vals with
      | [] => Ok cur
      | [v] => Ok (Some v)
      | _ :: _ :: _ => Raise InvalidUpdateError
      end
  | BinaryOperatorAggregate op _ =>
      match cur, vals with
      | None, [] => Ok None
      | None, v :: vals' => Some <$> reduce op v vals'
      | Some acc, _ => Some <$> reduce op acc vals
      end
  end.

Definition set_channel (k : string) (v : option value)
    (chans : CounterState) : CounterState :=
  match v with
  | Some x => <[k := x]> chans
  | None => chans
  end.

Fixpoint apply_fields (fields : list (string * channel))
    (chans : CounterState) (writes : list CounterState)
    : result CounterState :=
  match fields with
  | [] => Ok chans
  | (k, c) :: fields' =>
      v ← update_channel c (chans !! k) (omap (λ w, w !! k) writes);
      apply_fields fields' (set_channel k v chans) writes
  end.

Definition apply_writes (g : StateGraph)
    (chans : CounterState) (writes : list CounterState)
    : result CounterState :=
  apply_fields (schema g) chans writes.

Definition init_channels (g : StateGraph) : CounterState :=
  foldr (λ '(k, c) chans,
           match c with
           | BinaryOperatorAggregate _ (Some v) => <[k := v]> chans
           | _ => chans
           end) ∅ (schema g).

(** *** Tasks and super-steps *)

(** A task is either a node triggered by an edge, which reads the graph
    state, or a [Send], which runs its node on the argument it carries. *)
Inductive task :=
  | Pull (name : string)
  | Push (s : Send).

Definition task_node (t : task) : string :=
  match t with
  | Pull name => name
  | Push s => send_node s
  end.

Definition task_input (chans : CounterState) (t : task) : CounterState :=
  match t with
  | Pull _ => chans
  | Push s => send_arg s
  end.

(** The routers of the conditional edges that leave [name].  A router reads
    the state as the node that just finished sees it: the state of the
    step with the node's own writes [w] merged in. *)
Fixpoint route (g : StateGraph) (bs : list (string * router_fn * list string))
    (name : string) (chans w : CounterState) : M (list Send) :=
  match bs with
  | [] => mret []
  | (src, path, _) :: bs' =>
      if decide (src = name)
      then fresh ← lift (apply_writes g chans [w]);
           sends ← path fresh;
           more ← route g bs' name chans w;
           mret (sends ++ more)
      else route g bs' name chans w
  end.

(** Running one task gives what it wrote and the [Send]s it routed. *)
Definition run_task (g : StateGraph) (chans : CounterState) (t : task)
    : M (CounterState * list Send) :=
  match nodes g !! task_node t with
  | None => raise (KeyError (task_node t))
  | Some f =>
      w ← f (task_input chans t);
      sends ← route g (branches g) (task_node t) chans w;
      mret (w, sends)
  end.

(** The nodes the static edges trigger once the nodes [ran] are done; a
    node triggered by several finished tasks runs once. *)
Definition triggered (g : StateGraph) (ran : list string) : list string :=
  remove_dups
    (filter (λ dst, dst ≠ END)
       ((filter (λ e, e.1 ∈ ran) (edges g)).*2)).

(** The order in which the tasks of a super-step finish is the scheduler's
    choice: it is handed the tasks with their indices and returns them in
    some order, none lost and none added. *)
Record scheduler := mkScheduler {
  pick :> list (nat * task) → list (nat * task);
  pick_perm : ∀ l, pick l ≡ₚ l
}.

Section Scheduled.
Variable sched : list (nat * task) → list (nat * task).

Definition superstep (g : StateGraph)
    (chans : CounterState) (tasks : list task)
    : M (CounterState * list task) :=
  let order := (sched (imap pair tasks)).*2 in
  rs ← mapM (run_task g chans) order;
  chans' ← lift (apply_writes g chans (rs.*1));
  mret (chans',
        (Push <$> concat (rs.*2))
          ++ (Pull <$> triggered g (task_node <$> order))).

(** The step budget is looked at first: a run whose budget is used up raises
    even when its last super-step left no task, so a run of [k] super-steps
    needs a budget of [k + 1]. *)
Fixpoint loop (g : StateGraph) (fuel : nat)
    (chans : CounterState) (tasks : list task) : M CounterState :=
  match fuel, tasks with
  | O, _ => raise GraphRecursionError
  | S _, [] => mret chans
  | S fuel', _ :: _ =>
      '(chans', next) ← superstep g chans tasks;
      loop g fuel' chans' next
  end.

(** The step budget of a run unless configured. *)
Definition recursion_limit : nat := 25.

Definition invoke (g : StateGraph) (input : CounterState)
    : M CounterState :=
  chans ← lift (apply_writes g (init_channels g) [input]);
  loop g recursion_limit chans (Pull <$> triggered g [START]).
End Scheduled.
End Host.

Import Host.

(** ** 4. Graph construction *)

Definition graph_builder : StateGraph :=
  let g := new_graph CounterState_schema in
  let g := add_node "prepare_tasks" prepare_tasks g in
  let g := add_node "increment" increment_node g in
  let g := add_node "collector" collector_node g in
  let g := add_node "result" result_node g in
  let g := add_edge START "prepare_tasks" g in
  let g := add_conditional_edges "prepare_tasks" spawn_router ["increment"] g in
  let g := add_edge "increment" "collector" g in
  let g := add_edge "collector" "result" g in
  let g := add_edge "result" END g in
  g.

Definition graph : StateGraph := graph_builder.

(** The input of the script's run: [initial_state = {}]. *)
Definition initial_state : CounterState := ∅.

(** The run from the conditional edge on, for a state in which the first
    node has left the number of tasks: routing, the parallel increments, the
    barrier and the check. *)
Definition run_scattered (sched : list (nat * task) → list (nat * task))
    (fuel : nat) (state : CounterState) : M CounterState :=
  sends ← spawn_router state;
  loop sched graph fuel state (Push <$> sends).

(** The check as the specification words it, with the expected total a
    parameter; the script's [result_node] is its instance at 10000
    ([result_node_expecting_10000]). *)
Definition result_node_expecting (expected_total : Z) (state : CounterState)
    : M CounterState :=
  let expected := VInt expected_total in
  let got := dict_get state "counter" (VInt 0) in
  print ("Node: result (Expected=" +:+ format expected
           +:+ ", Got=" +:+ format got +:+ ")");;
  let msg :=
    if py_eq got expected
    then "✅ Success! Counter reached " +:+ format got +:+ " as expected."
    else "❌ Failure! Expected " +:+ format expected
           +:+ ", but got " +:+ format got +:+ "." in
  mret {[ "message" := VStr msg ]}.

(** The script's graph with that check registered as its "result" node, and
    the run from the conditional edge on in a given graph. *)
Definition graph_expecting (expected_total : Z) : StateGraph :=
  add_node "result" (result_node_expecting expected_total) graph.

Definition run_scattered_in (g : StateGraph)
    (sched : list (nat * task) → list (nat * task))
    (fuel : nat) (state : CounterState) : M CounterState :=
  sends ← spawn_router state;
  loop sched g fuel state (Push <$> sends).

(** The character "\n" and Python's [s * n] on strings. *)
Definition newline : string := String (Ascii.ascii_of_nat 10) EmptyString.

Fixpoint str_mul (s : string) (n : nat) : string :=
  match n with
  | O => EmptyString
  | S n' => s +:+ str_mul s n'
  end.

(** The verification block of the script: run the graph on the empty
    initial state, then print the banner, the message and the counter of the
    final state. *)
Definition main (sched : list (nat * task) → list (nat * task)) : M unit :=
  final_state ← invoke sched graph initial_state;
  print (newline +:+ str_mul "=" 30);;
  print "      FINAL EXECUTION RESULT";;
  print (str_mul "=" 30);;
  message ← subscript final_state "message";
  print (format message);;
  counter ← subscript final_state "counter";
  print ("Final counter value: " +:+ format counter).

(** Two schedulers: tasks finish in the order they were created, or in the
    opposite order. *)
Definition fifo : scheduler := mkScheduler (λ l, l) (λ l, Permutation_refl l).
Definition lifo : scheduler := mkScheduler reverse reverse_Permutation.

(** The value a spawned task contributes to the counter. *)
Definition task_write (s : Send) : CounterState :=
  match outcome (run_task graph ∅ (Push s)) with
  | Ok (w, _) => w
  | Raise _ => ∅
  end.

Definition contribution (s : Send) : Z :=
  match task_write s !! "counter" with
  | Some (VInt z) => z
  | _ => 0
  end.

Fixpoint sum_list_Z (l : list Z) : Z :=
  match l with
  | [] => 0
  | z :: l' => z + sum_list_Z l'
  end.

(** The message a final state carries, and whether a message reports
    success: it is then the text of the first branch of [result_node]. *)
Definition message_of (state : CounterState) : option string :=
  match state !! "message" with
  | Some (VStr s) => Some s
  | _ => None
  end.

Definition succeeded (msg : string) : bool :=
  String.prefix "✅ Success!" msg.

Definition contains (needle hay : string) : bool :=
  bool_decide (is_Some (String.index 0 needle hay)).

(** The [Send] the router emits for every task. *)
Definition increment_send : Send := mkSend "increment" ∅.

(** The writes of a list of tasks that each add an integer to the counter. *)
Definition counter_writes (cs : list Z) : list CounterState :=
  (λ c, {[ "counter" := VInt c ]}) <$> cs.

(** What is left of a run once the increments are merged: the barrier node,
    then the check, whose message is written to the state. *)
Definition barrier_and_check (state : CounterState) : M CounterState :=
  collector_node state;;
  w ← result_node state;
  lift (apply_writes graph state [w]).

(** The line and the message of [result_node] when the counter is the
    integer [c]; [result_node_int] relates them to the node. *)
Definition check_line (c : Z) : string :=
  "Node: result (Expected=10000, Got=" +:+ pretty c +:+ ")".

Definition check_message (c : Z) : string :=
  if bool_decide (c = 10000)
  then "✅ Success! Counter reached " +:+ pretty c +:+ " as expected."
  else "❌ Failure! Expected 10000, but got " +:+ pretty c +:+ ".".

(** [emit out m]: the lines [out] were printed, then [m] ran. *)
Definition emit {A} (out : list string) (m : M A) : M A :=
  (out ++ m.1, m.2).

(** * Properties *)

(** ** Sequencing of effects *)

Lemma bind_ok {A B} (out : list string) (a : A) (f : A → M B) :
  ((out, Ok a) : M A) ≫= f = emit out (f a).
Proof. unfold mbind, M_bind, emit. by destruct (f a). Qed.

Lemma bind_raise {A B} (out : list string) (e : error) (f : A → M B) :
  ((out, Raise e) : M A) ≫= f = (out, Raise e).
Proof. done. Qed.

Lemma emit_nil {A} (m : M A) : emit [] m = m.
Proof. by destruct m. Qed.

Lemma emit_emit {A} (o1 o2 : list string) (m : M A) :
  emit o1 (emit o2 m) = emit (o1 ++ o2) m.
Proof. unfold emit. simpl. by rewrite app_assoc. Qed.

Lemma emit_bind {A B} (out : list string) (m : M A) (f : A → M B) :
  emit out m ≫= f = emit out (m ≫= f).
Proof.
  destruct m as [o [a|e]]; unfold emit; simpl; [|done].
  destruct (f a). simpl. by rewrite app_assoc.
Qed.

Lemma bind_print {B} (line : string) (k : unit → M B) :
  print line ≫= k = emit [line] (k tt).
Proof. apply bind_ok. Qed.

Lemma bind_mret {A B} (a : A) (f : A → M B) : mret a ≫= f = f a.
Proof. unfold mret, M_ret. by rewrite bind_ok, emit_nil. Qed.

Lemma bind_lift_ok {A B} (a : A) (f : A → M B) : lift (Ok a) ≫= f = f a.
Proof. apply bind_mret. Qed.

Lemma bind_lift_raise {A B} (e : error) (f : A → M B) :
  lift (Raise e) ≫= f = raise e.
Proof. done. Qed.

Lemma bind_ext {A B} (m : M A) (f g : A → M B) :
  (∀ a, f a = g a) → m ≫= f = m ≫= g.
Proof. intros H. destruct m as [out [a|e]]; [|done]. by rewrite !bind_ok, H. Qed.

Lemma bind_assoc {A B C} (m : M A) (f : A → M B) (g : B → M C) :
  (m ≫= f) ≫= g = m ≫= (λ a, f a ≫= g).
Proof.
  destruct m as [out [a|e]]; [|done]. by rewrite !bind_ok, emit_bind.
Qed.

Lemma emit_mret {A} (out : list string) (a : A) : emit out (mret a) = (out, Ok a).
Proof. unfold emit. simpl. by rewrite app_nil_r. Qed.

Lemma emit_raise {A} (out : list string) (e : error) :
  emit out (raise e : M A) = (out, Raise e).
Proof. unfold emit. simpl. by rewrite app_nil_r. Qed.

Lemma bind_mret_r {A} (m : M A) : m ≫= mret = m.
Proof.
  destruct m as [out [a|e]]; [|done]. by rewrite bind_ok, emit_mret.
Qed.

(** ** The graph as compiled *)

Lemma graph_schema : schema graph = CounterState_schema.
Proof. reflexivity. Qed.

Lemma graph_edges :
  edges graph =
    [ (START, "prepare_tasks"); ("increment", "collector");
      ("collector", "result"); ("result", END) ].
Proof. reflexivity. Qed.

Lemma graph_branches :
  branches graph = [ ("prepare_tasks", spawn_router, ["increment"]) ].
Proof. reflexivity. Qed.

Lemma graph_node_prepare : nodes graph !! "prepare_tasks" = Some prepare_tasks.
Proof. reflexivity. Qed.

Lemma graph_node_increment : nodes graph !! "increment" = Some increment_node.
Proof. reflexivity. Qed.

Lemma graph_node_collector : nodes graph !! "collector" = Some collector_node.
Proof. reflexivity. Qed.

Lemma graph_node_result : nodes graph !! "result" = Some result_node.
Proof. reflexivity. Qed.

(** ** Merging writes into the channels *)

Lemma reduce_add_ints (c0 : Z) (cs : list Z) :
  reduce operator_add (VInt c0) (VInt <$> cs) = Ok (VInt (c0 + sum_list_Z cs)).
Proof.
  revert c0. induction cs as [|c cs IH]; intros c0; simpl.
  - f_equal. f_equal. lia.
  - rewrite IH. f_equal. f_equal. lia.
Qed.

Lemma sum_list_Z_perm (cs cs' : list Z) :
  cs ≡ₚ cs' → sum_list_Z cs = sum_list_Z cs'.
Proof. induction 1; simpl; lia. Qed.

Lemma sum_list_Z_replicate (k : nat) (c : Z) :
  sum_list_Z (replicate k c) = Z.of_nat k * c.
Proof. induction k as [|k IH]; simpl; [lia | rewrite IH; lia]. Qed.

Lemma counter_writes_replicate (k : nat) (c : Z) :
  replicate k ({[ "counter" := VInt c ]} : CounterState) =
    counter_writes (replicate k c).
Proof. unfold counter_writes. by rewrite fmap_replicate. Qed.

Lemma omap_counter_writes (cs : list Z) :
  omap (λ w : CounterState, w !! "counter") (counter_writes cs) = VInt <$> cs.
Proof.
  induction cs as [|c cs IH]; [done|].
  unfold counter_writes in *. rewrite fmap_cons. cbn [omap list_omap].
  rewrite lookup_singleton_eq. by rewrite IH.
Qed.

Lemma omap_counter_writes_other (k : string) (cs : list Z) :
  k ≠ "counter" →
  omap (λ w : CounterState, w !! k) (counter_writes cs) = [].
Proof.
  intros Hk. induction cs as [|c cs IH]; [done|].
  unfold counter_writes in *. rewrite fmap_cons. cbn [omap list_omap].
  by rewrite lookup_singleton_ne.
Qed.

Lemma apply_fields_cons (k : string) (c : channel)
    (fields : list (string * channel)) (chans : CounterState)
    (writes : list CounterState) :
  apply_fields ((k, c) :: fields) chans writes =
    (v ← update_channel c (chans !! k) (omap (λ w : CounterState, w !! k) writes);
     apply_fields fields (set_channel k v chans) writes).
Proof. reflexivity. Qed.

(** A plain field nobody wrote to keeps its value. *)
Lemma set_channel_id (k : string) (chans : CounterState) :
  set_channel k (chans !! k) chans = chans.
Proof.
  unfold set_channel. destruct (chans !! k) eqn:E; [|done]. by apply insert_id.
Qed.

Lemma update_channel_nil (c : channel) (cur : option value) :
  update_channel c cur [] = Ok cur.
Proof. destruct c, cur; reflexivity. Qed.

(** Fields that no task wrote to are left as they are. *)
Lemma apply_fields_untouched (fields : list (string * channel))
    (chans : CounterState) (writes : list CounterState) :
  (∀ k c, (k, c) ∈ fields → omap (λ w : CounterState, w !! k) writes = []) →
  apply_fields fields chans writes = Ok chans.
Proof.
  revert chans. induction fields as [|[k c] fields IH]; intros chans Hf; [done|].
  rewrite apply_fields_cons, (Hf k c) by left.
  rewrite update_channel_nil. cbn [mbind result_bind].
  rewrite set_channel_id. apply IH. intros k' c' Hin. apply (Hf k' c'). by right.
Qed.

(** Merging leaves alone every key outside the fields it is run on. *)
Lemma apply_fields_other (fields : list (string * channel))
    (chans chans' : CounterState) (writes : list CounterState) (k : string) :
  k ∉ fields.*1 →
  apply_fields fields chans writes = Ok chans' →
  chans' !! k = chans !! k.
Proof.
  revert chans. induction fields as [|[k' c] fields IH]; intros chans Hk.
  - by intros [= ->].
  - rewrite apply_fields_cons. rewrite fmap_cons, not_elem_of_cons in Hk.
    destruct Hk as [Hne Hk]. cbn [fst] in Hne.
    destruct (update_channel c _ _) as [v|e]; [|done]. cbn [mbind result_bind].
    intros Hrest. rewrite (IH _ Hk Hrest).
    destruct v as [x|]; cbn [set_channel]; [|done].
    by rewrite lookup_insert_ne.
Qed.

(** The counter channel starts as the integer 0 and an input can only add an
    integer to it. *)
Lemma input_counter (input chans : CounterState) :
  apply_writes graph (init_channels graph) [input] = Ok chans →
  ∃ c, chans !! "counter" = Some (VInt c).
Proof.
  unfold apply_writes. rewrite graph_schema. unfold CounterState_schema.
  rewrite apply_fields_cons.
  change (init_channels graph !! "counter") with (Some (VInt 0)).
  cbn [omap list_omap update_channel].
  assert (Hother : "counter" ∉ [("tasks_to_spawn", LastValue);
                                 ("message", LastValue)].*1).
  { cbn [fmap list_fmap fst]. rewrite !not_elem_of_cons.
    split_and!; [done..|]. apply not_elem_of_nil. }
  destruct (input !! "counter") as [[y|y]|];
    cbn [reduce operator_add mbind result_bind fmap result_fmap set_channel];
    [| done |].
  - intros Hrest. exists (0 + y).
    by rewrite (apply_fields_other _ _ _ _ _ Hother Hrest), lookup_insert_eq.
  - intros Hrest. exists 0.
    by rewrite (apply_fields_other _ _ _ _ _ Hother Hrest), lookup_insert_eq.
Qed.

(** Folding integer contributions into an integer counter adds their sum. *)
Lemma apply_writes_counter (chans : CounterState) (c0 : Z) (cs : list Z) :
  chans !! "counter" = Some (VInt c0) →
  apply_writes graph chans (counter_writes cs) =
    Ok (<[ "counter" := VInt (c0 + sum_list_Z cs) ]> chans).
Proof.
  intros Hc. unfold apply_writes. rewrite graph_schema. unfold CounterState_schema.
  rewrite apply_fields_cons, Hc, omap_counter_writes. cbn [update_channel].
  rewrite reduce_add_ints. cbn [fmap result_fmap mbind result_bind set_channel].
  apply apply_fields_untouched. intros k c Hin.
  apply omap_counter_writes_other.
  apply list_elem_of_In in Hin. simpl in Hin.
  destruct Hin as [[= <- _]|[[= <- _]|[]]]; done.
Qed.

(** The same sum is reached whatever the order of the contributions. *)
Lemma apply_writes_counter_perm (chans : CounterState) (c0 : Z)
    (cs cs' : list Z) :
  chans !! "counter" = Some (VInt c0) →
  cs ≡ₚ cs' →
  apply_writes graph chans (counter_writes cs') =
    apply_writes graph chans (counter_writes cs).
Proof.
  intros Hc Hp. rewrite !(apply_writes_counter _ c0) by done.
  by rewrite (sum_list_Z_perm _ _ Hp).
Qed.

(** A task that wrote nothing changes nothing. *)
Lemma apply_writes_empty (chans : CounterState) :
  apply_writes graph chans [∅] = Ok chans.
Proof.
  apply apply_fields_untouched. intros k c _. cbn [omap list_omap].
  by rewrite lookup_empty.
Qed.

Lemma apply_writes_nil (chans : CounterState) :
  apply_writes graph chans [] = Ok chans.
Proof. by apply apply_fields_untouched. Qed.

Lemma input_initial_state :
  apply_writes graph (init_channels graph) [initial_state] =
    Ok {[ "counter" := VInt 0 ]}.
Proof. apply apply_writes_empty. Qed.

(** A single write to a plain field of the schema sets that field. *)
Lemma apply_writes_tasks_to_spawn (chans : CounterState) (v : value) :
  apply_writes graph chans [ {[ "tasks_to_spawn" := v ]} ] =
    Ok (<[ "tasks_to_spawn" := v ]> chans).
Proof.
  unfold apply_writes. rewrite graph_schema. unfold CounterState_schema.
  rewrite apply_fields_cons. cbn [omap list_omap].
  rewrite lookup_singleton_ne by done. rewrite update_channel_nil.
  cbn [mbind result_bind]. rewrite set_channel_id.
  rewrite apply_fields_cons. cbn [omap list_omap].
  rewrite lookup_singleton_eq. cbn [update_channel mbind result_bind set_channel].
  apply apply_fields_untouched. intros k c Hin. cbn [omap list_omap].
  apply list_elem_of_In in Hin. simpl in Hin.
  destruct Hin as [[= <- _]|[]]. by rewrite lookup_singleton_ne.
Qed.

Lemma apply_writes_message (chans : CounterState) (v : value) :
  apply_writes graph chans [ {[ "message" := v ]} ] =
    Ok (<[ "message" := v ]> chans).
Proof.
  unfold apply_writes. rewrite graph_schema. unfold CounterState_schema.
  rewrite apply_fields_cons. cbn [omap list_omap].
  rewrite lookup_singleton_ne by done. rewrite update_channel_nil.
  cbn [mbind result_bind]. rewrite set_channel_id.
  rewrite apply_fields_cons. cbn [omap list_omap].
  rewrite lookup_singleton_ne by done. rewrite update_channel_nil.
  cbn [mbind result_bind]. rewrite set_channel_id.
  rewrite apply_fields_cons. cbn [omap list_omap].
  rewrite lookup_singleton_eq. by cbn.
Qed.

(** ** Tasks of the graph *)

Lemma run_task_increment (chans : CounterState) :
  run_task graph chans (Push increment_send) =
    ([], Ok ({[ "counter" := VInt 1 ]}, [])).
Proof. reflexivity. Qed.

Lemma run_task_collector (chans : CounterState) :
  run_task graph chans (Pull "collector") =
    (["Node: collector (all increments complete)"], Ok (∅, [])).
Proof. reflexivity. Qed.

Lemma run_task_result (chans : CounterState) :
  run_task graph chans (Pull "result") =
    (w ← result_node chans; mret (w, [])).
Proof. reflexivity. Qed.

Lemma run_task_prepare (chans : CounterState) :
  run_task graph chans (Pull "prepare_tasks") =
    (print "Node: prepare_tasks";;
     sends ← spawn_router (<[ "tasks_to_spawn" := VInt 10000 ]> chans);
     mret ({[ "tasks_to_spawn" := VInt 10000 ]}, sends)).
Proof.
  unfold run_task. cbn [task_input task_node].
  rewrite graph_node_prepare, graph_branches. unfold prepare_tasks.
  rewrite !bind_print, emit_bind, bind_mret. f_equal.
  cbn [route]. rewrite decide_True by done.
  rewrite apply_writes_tasks_to_spawn, bind_lift_ok.
  destruct (spawn_router _) as [out [sends|e]]; [|done].
  by rewrite !bind_ok, emit_bind, !bind_mret, app_nil_r.
Qed.

Lemma triggered_same_nodes (g : StateGraph) (ran ran' : list string) :
  (∀ x, x ∈ ran ↔ x ∈ ran') → triggered g ran = triggered g ran'.
Proof.
  intros H. unfold triggered. do 3 f_equal.
  apply list_filter_iff. intros e. apply H.
Qed.

Lemma triggered_increment (k : nat) :
  triggered graph (replicate (S k) "increment") = ["collector"].
Proof.
  rewrite (triggered_same_nodes _ _ ["increment"]); [reflexivity|].
  intros x. rewrite elem_of_replicate, list_elem_of_singleton.
  split; [by intros [-> _] | by intros ->].
Qed.

Lemma mapM_uniform {A B} (f : A → M B) (l : list A) (c : B) :
  (∀ x, x ∈ l → f x = ([], Ok c)) →
  mapM f l = ([], Ok (replicate (length l) c)).
Proof.
  induction l as [|x l IH]; intros Hf; [done|].
  cbn [mapM]. rewrite (Hf x) by left.
  change (([] : list string, Ok c) : M B) with (mret c : M B).
  rewrite bind_mret, IH by (intros y Hy; apply Hf; by right).
  reflexivity.
Qed.

Lemma mapM_singleton {A B} (f : A → M B) (x : A) :
  mapM f [x] = (y ← f x; mret [y]).
Proof. cbn [mapM]. apply bind_ext. intros y. by rewrite bind_mret. Qed.

Lemma result_node_writes (state : CounterState) :
  ∃ line msg,
    result_node state = ([line], Ok {[ "message" := VStr msg ]}).
Proof.
  unfold result_node. eexists _, _. rewrite bind_print. apply emit_mret.
Qed.

Section Scheduled_runs.
Variable sched : list (nat * task) → list (nat * task).
Hypothesis sched_perm : ∀ l, sched l ≡ₚ l.

Lemma scheduled_tasks (tasks : list task) :
  (sched (imap pair tasks)).*2 ≡ₚ tasks.
Proof.
  rewrite sched_perm, fmap_imap.
  rewrite (imap_ext _ (const id)) by done.
  by rewrite imap_const, list_fmap_id.
Qed.

Lemma scheduled_replicate (k : nat) (t : task) :
  (sched (imap pair (replicate k t))).*2 = replicate k t.
Proof. symmetry. apply replicate_Permutation. by rewrite scheduled_tasks. Qed.

Lemma scheduled_singleton (t : task) : (sched (imap pair [t])).*2 = [t].
Proof. apply (scheduled_replicate 1 t). Qed.

Lemma loop_out_of_steps (chans : CounterState) (tasks : list task) :
  loop sched graph 0 chans tasks = raise GraphRecursionError.
Proof. reflexivity. Qed.

Lemma loop_done (fuel : nat) (chans : CounterState) :
  loop sched graph (S fuel) chans [] = mret chans.
Proof. reflexivity. Qed.

Lemma loop_step (fuel : nat) (chans : CounterState) (t : task)
    (tasks : list task) :
  loop sched graph (S fuel) chans (t :: tasks) =
    (r ← superstep sched graph chans (t :: tasks);
     loop sched graph fuel r.1 r.2).
Proof.
  cbn [loop].
  by destruct (superstep sched graph chans (t :: tasks)) as [out [[c n]|e]].
Qed.

(** The step of the parallel increments: whatever the order in which the
    scheduler lets them finish, the counter grows by their number and the
    barrier node is triggered once. *)
Lemma superstep_increments (chans : CounterState) (c0 : Z) (k : nat) :
  chans !! "counter" = Some (VInt c0) →
  superstep sched graph chans (replicate (S k) (Push increment_send)) =
    mret (<[ "counter" := VInt (c0 + Z.of_nat (S k)) ]> chans,
          [Pull "collector"]).
Proof.
  intros Hc. unfold superstep. rewrite scheduled_replicate.
  rewrite (mapM_uniform _ _ ({[ "counter" := VInt 1 ]}, []))
    by (intros t Ht; apply elem_of_replicate_inv in Ht as ->;
        apply run_task_increment).
  change (([] : list string, Ok ?x)) with (mret (M := M) x).
  rewrite bind_mret, length_replicate, !fmap_replicate.
  cbn [fst snd task_node increment_send send_node].
  rewrite counter_writes_replicate.
  rewrite (apply_writes_counter _ c0), bind_lift_ok by done.
  rewrite sum_list_Z_replicate, triggered_increment.
  replace (concat (replicate (S k) ([] : list Send))) with ([] : list Send)
    by (induction k; [done | by rewrite replicate_S]).
  do 4 f_equal. lia.
Qed.

Lemma superstep_collector (chans : CounterState) :
  superstep sched graph chans [Pull "collector"] =
    (collector_node chans;; mret (chans, [Pull "result"])).
Proof.
  unfold superstep. rewrite scheduled_singleton, mapM_singleton.
  rewrite run_task_collector. unfold collector_node.
  rewrite !bind_ok, !bind_print, !emit_bind, !bind_mret. f_equal.
  cbn [fmap list_fmap fst snd]. by rewrite apply_writes_empty, bind_lift_ok.
Qed.

Lemma superstep_result (chans : CounterState) :
  superstep sched graph chans [Pull "result"] =
    (w ← result_node chans;
     chans' ← lift (apply_writes graph chans [w]);
     mret (chans', [])).
Proof.
  unfold superstep. rewrite scheduled_singleton, mapM_singleton.
  rewrite run_task_result.
  destruct (result_node_writes chans) as (line & msg & ->).
  by rewrite !bind_ok, !emit_bind, !bind_mret.
Qed.

Lemma superstep_prepare (chans : CounterState) :
  superstep sched graph chans [Pull "prepare_tasks"] =
    (print "Node: prepare_tasks";;
     sends ← spawn_router (<[ "tasks_to_spawn" := VInt 10000 ]> chans);
     mret (<[ "tasks_to_spawn" := VInt 10000 ]> chans, Push <$> sends)).
Proof.
  unfold superstep. rewrite scheduled_singleton, mapM_singleton.
  rewrite run_task_prepare.
  rewrite !bind_print, !emit_bind. f_equal.
  destruct (spawn_router _) as [out [sends|e]]; [|done].
  rewrite !bind_ok, !emit_bind, !bind_mret. f_equal.
  cbn [fmap list_fmap fst snd].
  rewrite apply_writes_tasks_to_spawn, bind_lift_ok.
  cbn [concat]. by rewrite !app_nil_r.
Qed.

(** The last super-steps of a run, with what is left of the budget. *)
Lemma loop_check_steps (fuel : nat) (chans : CounterState) :
  loop sched graph (S fuel) chans [Pull "result"] =
    (w ← result_node chans;
     chans' ← lift (apply_writes graph chans [w]);
     loop sched graph fuel chans' []).
Proof.
  rewrite loop_step, superstep_result.
  destruct (result_node_writes chans) as (line & msg & ->).
  by rewrite !bind_ok, apply_writes_message, !bind_lift_ok, !emit_bind, bind_mret.
Qed.

Lemma loop_barrier_steps (fuel : nat) (chans : CounterState) :
  loop sched graph (S (S fuel)) chans [Pull "collector"] =
    (collector_node chans;;
     w ← result_node chans;
     chans' ← lift (apply_writes graph chans [w]);
     loop sched graph fuel chans' []).
Proof.
  rewrite loop_step, superstep_collector.
  rewrite bind_assoc. apply bind_ext. intros _.
  rewrite bind_mret. apply loop_check_steps.
Qed.

Lemma loop_increments_steps (fuel : nat) (chans : CounterState) (c0 : Z)
    (k : nat) :
  chans !! "counter" = Some (VInt c0) →
  loop sched graph (S fuel) chans (replicate (S k) (Push increment_send)) =
    loop sched graph fuel
         (<[ "counter" := VInt (c0 + Z.of_nat (S k)) ]> chans)
         [Pull "collector"].
Proof.
  intros Hc. rewrite replicate_S, loop_step, <- replicate_S.
  by rewrite (superstep_increments _ c0), bind_mret.
Qed.

Lemma loop_check (fuel : nat) (chans : CounterState) :
  loop sched graph (S (S fuel)) chans [Pull "result"] =
    (w ← result_node chans; lift (apply_writes graph chans [w])).
Proof.
  rewrite loop_check_steps. apply bind_ext. intros w.
  destruct (apply_writes graph chans [w]) as [chans'|e]; [|done].
  by rewrite bind_lift_ok, loop_done.
Qed.

Lemma loop_barrier (fuel : nat) (chans : CounterState) :
  loop sched graph (S (S (S fuel))) chans [Pull "collector"] =
    barrier_and_check chans.
Proof.
  rewrite loop_step, superstep_collector. unfold barrier_and_check.
  rewrite bind_assoc. apply bind_ext. intros _.
  rewrite bind_mret. apply loop_check.
Qed.

Lemma loop_increments (fuel : nat) (chans : CounterState) (c0 : Z) (k : nat) :
  chans !! "counter" = Some (VInt c0) →
  loop sched graph (S (S (S (S fuel)))) chans
       (replicate (S k) (Push increment_send)) =
    barrier_and_check (<[ "counter" := VInt (c0 + Z.of_nat (S k)) ]> chans).
Proof.
  intros Hc. rewrite (loop_increments_steps _ _ c0) by done.
  apply loop_barrier.
Qed.
End Scheduled_runs.

(** ** The router *)

Lemma spawn_router_sends (state : CounterState) (n : Z) :
  state !! "tasks_to_spawn" = Some (VInt n) →
  spawn_router state =
    (["Routing... Spawning tasks."],
     Ok (replicate (Z.to_nat n) increment_send)).
Proof.
  intros Hn. unfold spawn_router, subscript. rewrite Hn.
  rewrite bind_print, bind_mret. cbn [range]. rewrite bind_mret.
  rewrite (const_fmap _ _ increment_send) by done.
  by rewrite length_seqZ, emit_mret.
Qed.

(** ** The barrier and the check *)

Lemma barrier_and_check_writes (state : CounterState) (line msg : string) :
  result_node state = ([line], Ok {[ "message" := VStr msg ]}) →
  barrier_and_check state =
    (["Node: collector (all increments complete)"; line],
     Ok (<[ "message" := VStr msg ]> state)).
Proof.
  intros Hr. unfold barrier_and_check, collector_node.
  rewrite bind_assoc, bind_print, bind_mret, Hr, bind_ok.
  by rewrite apply_writes_message.
Qed.

Lemma result_node_int (state : CounterState) (c : Z) :
  state !! "counter" = Some (VInt c) →
  result_node state =
    ([check_line c], Ok {[ "message" := VStr (check_message c) ]}).
Proof.
  intros Hc. unfold result_node, dict_get, py_eq, check_line, check_message.
  rewrite Hc. cbn [default format].
  rewrite bind_print, emit_mret. do 4 f_equal.
  destruct (decide (c = 10000)) as [->|Hne].
  - by rewrite !bool_decide_eq_true_2.
  - rewrite (bool_decide_eq_false_2 (c = 10000)) by done.
    by rewrite bool_decide_eq_false_2 by (by intros [= ?]).
Qed.

(** ** The run from the conditional edge on *)

Section Scattered_runs.
Variable sched : scheduler.

(** With a positive number of tasks the counter grows by that number and
    the run goes on to the barrier and the check. *)
Lemma run_scattered_positive (fuel : nat) (state : CounterState) (n c0 : Z) :
  (4 ≤ fuel)%nat → 0 < n →
  state !! "tasks_to_spawn" = Some (VInt n) →
  state !! "counter" = Some (VInt c0) →
  run_scattered sched fuel state =
    emit ["Routing... Spawning tasks."]
         (barrier_and_check (<[ "counter" := VInt (c0 + n) ]> state)).
Proof.
  intros Hfuel Hn Ht Hc. unfold run_scattered.
  rewrite (spawn_router_sends _ n), bind_ok by done. f_equal.
  destruct fuel as [|[|[|[|fuel]]]]; [lia..|].
  destruct (Z.to_nat n) as [|k] eqn:Hk; [lia|].
  rewrite fmap_replicate, (loop_increments _ (pick_perm sched) _ _ c0) by done.
  do 3 f_equal. lia.
Qed.

Lemma run_scattered_final (fuel : nat) (state : CounterState) (n c0 : Z) :
  (4 ≤ fuel)%nat → 0 < n →
  state !! "tasks_to_spawn" = Some (VInt n) →
  state !! "counter" = Some (VInt c0) →
  run_scattered sched fuel state =
    ([ "Routing... Spawning tasks.";
       "Node: collector (all increments complete)";
       check_line (c0 + n) ],
     Ok (<[ "message" := VStr (check_message (c0 + n)) ]>
           (<[ "counter" := VInt (c0 + n) ]> state))).
Proof.
  intros Hfuel Hn Ht Hc. rewrite (run_scattered_positive _ _ n c0) by done.
  by rewrite (barrier_and_check_writes _ (check_line (c0 + n))
                (check_message (c0 + n)))
    by (apply result_node_int, lookup_insert_eq).
Qed.

(** With no task to spawn the run ends at once: no edge fires. *)
Lemma run_scattered_nonpositive (fuel : nat) (state : CounterState) (n : Z) :
  (1 ≤ fuel)%nat →
  n ≤ 0 →
  state !! "tasks_to_spawn" = Some (VInt n) →
  run_scattered sched fuel state =
    (["Routing... Spawning tasks."], Ok state).
Proof.
  intros Hfuel Hn Ht. unfold run_scattered.
  rewrite (spawn_router_sends _ n), bind_ok by done.
  replace (Z.to_nat n) with 0%nat by lia.
  destruct fuel as [|fuel]; [lia|].
  cbn [replicate fmap list_fmap]. by rewrite loop_done, emit_mret.
Qed.

(** The lines of a run are those of its super-steps even when the budget
    is just short of letting it end. *)
Lemma run_scattered_output (fuel : nat) (state : CounterState) (n c0 : Z) :
  (3 ≤ fuel)%nat → 0 < n →
  state !! "tasks_to_spawn" = Some (VInt n) →
  state !! "counter" = Some (VInt c0) →
  output (run_scattered sched fuel state) =
    [ "Routing... Spawning tasks.";
      "Node: collector (all increments complete)";
      check_line (c0 + n) ].
Proof.
  intros Hfuel Hn Ht Hc.
  destruct (decide (fuel = 3%nat)) as [->|Hne].
  - unfold run_scattered.
    rewrite (spawn_router_sends _ n), bind_ok by done.
    destruct (Z.to_nat n) as [|k] eqn:Hk; [lia|].
    rewrite fmap_replicate.
    rewrite (loop_increments_steps _ (pick_perm sched) _ _ c0) by done.
    rewrite (loop_barrier_steps _ (pick_perm sched)). unfold collector_node.
    rewrite bind_assoc, bind_print, bind_mret.
    rewrite (result_node_int _ (c0 + Z.of_nat (S k))) by apply lookup_insert_eq.
    rewrite bind_ok, apply_writes_message, bind_lift_ok.
    replace (c0 + Z.of_nat (S k)) with (c0 + n) by lia. reflexivity.
  - rewrite (run_scattered_final _ _ n c0) by (done || lia). reflexivity.
Qed.

(** The whole run is the first node followed by the run from the
    conditional edge. *)
Lemma invoke_run_scattered (input chans : CounterState) :
  apply_writes graph (init_channels graph) [input] = Ok chans →
  invoke sched graph input =
    emit ["Node: prepare_tasks"]
      (run_scattered sched (pred recursion_limit)
         (<[ "tasks_to_spawn" := VInt 10000 ]> chans)).
Proof.
  intros Hin. unfold invoke. rewrite Hin, bind_lift_ok.
  change (triggered graph [START]) with ["prepare_tasks"].
  cbn [fmap list_fmap]. unfold recursion_limit at 1.
  rewrite loop_step, (superstep_prepare _ (pick_perm sched)).
  rewrite bind_assoc, bind_print. f_equal. unfold run_scattered.
  rewrite bind_assoc. apply bind_ext. intros sends. by rewrite bind_mret.
Qed.

(** The script's run, whatever the input it is started on. *)
Lemma invoke_final (input chans : CounterState) (c : Z) :
  apply_writes graph (init_channels graph) [input] = Ok chans →
  chans !! "counter" = Some (VInt c) →
  invoke sched graph input =
    ([ "Node: prepare_tasks";
       "Routing... Spawning tasks.";
       "Node: collector (all increments complete)";
       check_line (c + 10000) ],
     Ok (<[ "message" := VStr (check_message (c + 10000)) ]>
           (<[ "counter" := VInt (c + 10000) ]>
              (<[ "tasks_to_spawn" := VInt 10000 ]> chans)))).
Proof.
  intros Hin Hc. rewrite (invoke_run_scattered _ _ Hin).
  rewrite (run_scattered_final _ _ 10000 c); [done | | done | |].
  - unfold recursion_limit. cbn [pred]. lia.
  - apply lookup_insert_eq.
  - by rewrite lookup_insert_ne.
Qed.
End Scattered_runs.

Lemma spawn_router_ok_inv (state : CounterState) (sends : list Send) :
  outcome (spawn_router state) = Ok sends →
  ∃ n, state !! "tasks_to_spawn" = Some (VInt n)
       ∧ sends = replicate (Z.to_nat n) increment_send.
Proof.
  destruct (state !! "tasks_to_spawn") as [[n|s]|] eqn:Hn.
  - rewrite (spawn_router_sends _ n Hn). intros [= <-]. by exists n.
  - unfold spawn_router, subscript. rewrite Hn. by rewrite bind_print, bind_mret.
  - unfold spawn_router, subscript. rewrite Hn. by rewrite bind_print.
Qed.

Lemma task_write_increment :
  task_write increment_send = {[ "counter" := VInt 1 ]}.
Proof. reflexivity. Qed.

Lemma contribution_increment : contribution increment_send = 1.
Proof. reflexivity. Qed.

Lemma barrier_and_check_counter (state : CounterState) :
  ∃ final,
    outcome (barrier_and_check state) = Ok final
    ∧ final !! "counter" = state !! "counter"
    ∧ final !! "tasks_to_spawn" = state !! "tasks_to_spawn".
Proof.
  destruct (result_node_writes state) as (line & msg & Hr).
  rewrite (barrier_and_check_writes _ _ _ Hr). eexists. split; [done|].
  by rewrite !lookup_insert_ne.
Qed.

Lemma contains_spec (needle hay : string) :
  contains needle hay = true ↔ ∃ i, String.index 0 needle hay = Some i.
Proof. unfold contains. by rewrite bool_decide_eq_true. Qed.

(** The check of the specification, taken at the script's constant, is the
    script's check. *)
Lemma result_node_expecting_10000 (state : CounterState) :
  result_node_expecting 10000 state = result_node state.
Proof. reflexivity. Qed.

Lemma graph_expecting_10000 : graph_expecting 10000 = graph.
Proof. reflexivity. Qed.

(** * The claims *)

(** C1.  For every fan-out [n >= 0] that the first node leaves in the state,
    with the counter starting at 0, the router spawns [n] increment tasks and
    the run from the conditional edge ends without error with the counter
    equal to [n], under every scheduler and every step budget that lets its
    three super-steps end (4 or more; the default is 25). *)
Theorem fan_out_reaches_counter
    (sched : scheduler) (fuel : nat) (state : CounterState) (n : Z) :
  (4 ≤ fuel)%nat →
  0 ≤ n →
  state !! "tasks_to_spawn" = Some (VInt n) →
  state !! "counter" = Some (VInt 0) →
  ∃ sends final,
    outcome (spawn_router state) = Ok sends
    ∧ Z.of_nat (length sends) = n
    ∧ outcome (run_scattered sched fuel state) = Ok final
    ∧ final !! "counter" = Some (VInt n).
Proof.
  intros Hfuel Hn Ht Hc.
  exists (replicate (Z.to_nat n) increment_send).
  rewrite (spawn_router_sends _ n Ht), length_replicate.
  destruct (decide (n = 0)) as [->|Hpos].
  - exists state. by rewrite (run_scattered_nonpositive _ _ _ 0) by (done || lia).
  - rewrite (run_scattered_positive _ _ _ n 0) by (done || lia).
    destruct (barrier_and_check_counter (<[ "counter" := VInt (0 + n) ]> state))
      as (final & Hrun & Hcnt & _).
    exists final. unfold outcome, emit in *. cbn [snd]. rewrite Hrun.
    split_and!; [done | lia | done |].
    by rewrite Hcnt, lookup_insert_eq.
Qed.

Lemma fan_out_reaches_counter_witness :
  let state : CounterState :=
    <[ "tasks_to_spawn" := VInt 3 ]> {[ "counter" := VInt 0 ]} in
  ∃ sends final,
    outcome (spawn_router state) = Ok sends
    ∧ Z.of_nat (length sends) = 3
    ∧ outcome (run_scattered lifo recursion_limit state) = Ok final
    ∧ final !! "counter" = Some (VInt 3).
Proof.
  intros state.
  apply (fan_out_reaches_counter lifo recursion_limit state 3);
    [unfold recursion_limit; lia | lia | reflexivity | reflexivity].
Defined.

(** C2.  In every run (under a step budget of 4 or more) the final counter
    is the initial counter plus the sum of the contributions of all the tasks
    the router spawned, and merging those contributions in any other order
    gives the same counter. *)
Theorem counter_is_sum_of_contributions
    (sched : scheduler) (fuel : nat) (state : CounterState) (c0 : Z)
    (sends : list Send) :
  (4 ≤ fuel)%nat →
  state !! "counter" = Some (VInt c0) →
  outcome (spawn_router state) = Ok sends →
  ∃ final,
    outcome (run_scattered sched fuel state) = Ok final
    ∧ final !! "counter" =
        Some (VInt (sum_list_Z (contribution <$> sends) + c0))
    ∧ ∀ order, order ≡ₚ sends →
        ∃ merged,
          apply_writes graph state (task_write <$> order) = Ok merged
          ∧ merged !! "counter" = final !! "counter".
Proof.
  intros Hfuel Hc Hsends.
  destruct (spawn_router_ok_inv _ _ Hsends) as (n & Ht & ->).
  assert (Hsum : sum_list_Z (contribution <$> replicate (Z.to_nat n) increment_send)
                 = Z.of_nat (Z.to_nat n)).
  { rewrite fmap_replicate, contribution_increment, sum_list_Z_replicate. lia. }
  assert (Hfinal : ∃ final,
    outcome (run_scattered sched fuel state) = Ok final
    ∧ final !! "counter" = Some (VInt (Z.of_nat (Z.to_nat n) + c0))).
  { destruct (decide (n ≤ 0)) as [Hle|Hpos].
    - exists state. rewrite (run_scattered_nonpositive _ _ _ n) by (done || lia).
      split; [done|]. rewrite Hc. do 2 f_equal. lia.
    - rewrite (run_scattered_positive _ _ _ n c0) by (done || lia).
      destruct (barrier_and_check_counter (<[ "counter" := VInt (c0 + n) ]> state))
        as (final & Hrun & Hcnt & _).
      exists final. unfold outcome, emit in *. cbn [snd]. rewrite Hrun.
      split; [done|]. rewrite Hcnt, lookup_insert_eq. do 2 f_equal. lia. }
  destruct Hfinal as (final & Hrun & Hcnt).
  exists final. rewrite Hsum. split_and!; [done..|].
  intros order Hperm.
  assert (Hwrites : task_write <$> order = counter_writes (contribution <$> order)).
  { unfold counter_writes. rewrite <- list_fmap_compose.
    apply list_fmap_ext. intros i s Hs.
    apply list_elem_of_lookup_2 in Hs. rewrite Hperm in Hs.
    apply elem_of_replicate_inv in Hs as ->. reflexivity. }
  rewrite Hwrites, (apply_writes_counter _ c0) by done.
  eexists. split; [done|].
  rewrite lookup_insert_eq, Hcnt.
  rewrite (sum_list_Z_perm (contribution <$> order)
             (contribution <$> replicate (Z.to_nat n) increment_send))
    by (by rewrite Hperm).
  rewrite Hsum. do 2 f_equal. lia.
Qed.

Lemma counter_is_sum_of_contributions_witness :
  let state : CounterState :=
    <[ "tasks_to_spawn" := VInt 4 ]> {[ "counter" := VInt 0 ]} in
  let sends := replicate 4 increment_send in
  ∃ final,
    outcome (run_scattered lifo recursion_limit state) = Ok final
    ∧ final !! "counter" =
        Some (VInt (sum_list_Z (contribution <$> sends) + 0))
    ∧ ∀ order, order ≡ₚ sends →
        ∃ merged,
          apply_writes graph state (task_write <$> order) = Ok merged
          ∧ merged !! "counter" = final !! "counter".
Proof.
  intros state sends.
  apply (counter_is_sum_of_contributions lifo recursion_limit state 0 sends);
    [unfold recursion_limit; lia | reflexivity | reflexivity].
Defined.

(** C3.  The check reports success exactly when the counter equals the
    expected total 10000.  The script's own run (fan-out 10000) ends with
    counter 10000 and a success message that contains "Success" and "10000";
    a run in which the first node left 9999 ends with counter 9999 and the
    failure message, which contains "Expected 10000, but got 9999". *)
Theorem verify_reports_comparison :
  (∀ state : CounterState, ∃ line msg,
     result_node state = ([line], Ok {[ "message" := VStr msg ]})
     ∧ succeeded msg = py_eq (dict_get state "counter" (VInt 0)) (VInt 10000))
  ∧ (∀ sched : scheduler, ∃ final msg,
       outcome (invoke sched graph initial_state) = Ok final
       ∧ final !! "counter" = Some (VInt 10000)
       ∧ message_of final = Some msg
       ∧ succeeded msg = true
       ∧ contains "Success" msg = true
       ∧ contains "10000" msg = true)
  ∧ (∀ sched : scheduler, ∃ final msg,
       outcome (run_scattered sched recursion_limit
                  (<[ "tasks_to_spawn" := VInt 9999 ]> (init_channels graph)))
         = Ok final
       ∧ final !! "counter" = Some (VInt 9999)
       ∧ message_of final = Some msg
       ∧ succeeded msg = false
       ∧ contains "Expected 10000, but got 9999" msg = true).
Proof.
  split_and!.
  - intros state. unfold result_node.
    destruct (py_eq (dict_get state "counter" (VInt 0)) (VInt 10000)) eqn:Heq.
    + apply bool_decide_eq_true in Heq. rewrite Heq.
      eexists _, _. rewrite bind_print, emit_mret. split; reflexivity.
    + eexists _, _. rewrite bind_print, emit_mret. split; reflexivity.
  - intros sched.
    rewrite (invoke_final sched _ _ 0 input_initial_state) by done.
    eexists _, (check_message (0 + 10000)). split; [reflexivity|].
    unfold message_of. rewrite lookup_insert_ne, !lookup_insert_eq by done.
    split_and!; [done | done | by vm_compute..].
  - intros sched.
    rewrite (run_scattered_final sched _ _ 9999 0);
      [| unfold recursion_limit; lia | lia | apply lookup_insert_eq | done].
    eexists _, (check_message (0 + 9999)). split; [reflexivity|].
    unfold message_of. rewrite lookup_insert_ne, !lookup_insert_eq by done.
    split_and!; [done | done | by vm_compute..].
Qed.

(** C4, as the script behaves.  A state with [tasks_to_spawn = -1] is not
    rejected: the router returns no [Send], no task runs, and the run (under
    any step budget of 1 or more) ends without error in the state it started
    from, having printed only the routing line. *)
Theorem negative_fan_out_spawns_nothing
    (sched : scheduler) (fuel : nat) (state : CounterState) :
  (1 ≤ fuel)%nat →
  state !! "tasks_to_spawn" = Some (VInt (-1)) →
  outcome (spawn_router state) = Ok []
  ∧ run_scattered sched fuel state = (["Routing... Spawning tasks."], Ok state).
Proof.
  intros Hfuel Ht. split.
  - by rewrite (spawn_router_sends _ (-1) Ht).
  - by apply (run_scattered_nonpositive _ _ _ (-1)).
Qed.

Lemma negative_fan_out_spawns_nothing_witness :
  let state : CounterState :=
    <[ "tasks_to_spawn" := VInt (-1) ]> (init_channels graph) in
  outcome (spawn_router state) = Ok []
  ∧ run_scattered lifo recursion_limit state =
      (["Routing... Spawning tasks."], Ok state).
Proof.
  intros state.
  apply (negative_fan_out_spawns_nothing lifo recursion_limit state);
    [unfold recursion_limit; lia | reflexivity].
Defined.

(** C4 as stated fails: with [tasks_to_spawn = -1] neither the router nor the
    run raises any error. *)
Lemma negative_fan_out_not_rejected :
  let state : CounterState :=
    <[ "tasks_to_spawn" := VInt (-1) ]> (init_channels graph) in
  ¬ (∃ e, outcome (spawn_router state) = Raise e)
  ∧ ¬ (∃ e, outcome (run_scattered fifo recursion_limit state) = Raise e).
Proof.
  intros state.
  assert (Ht : state !! "tasks_to_spawn" = Some (VInt (-1)))
    by apply lookup_insert_eq.
  split; intros [e He].
  - by rewrite (spawn_router_sends _ _ Ht) in He.
  - rewrite (run_scattered_nonpositive _ _ _ (-1)) in He; [done | | done..].
    unfold recursion_limit. lia.
Qed.

(** C5.  Two runs on the same input give the same console output and the
    same outcome, whatever the order in which each run's scheduler lets the
    tasks finish; on the script's input both end with counter 10000. *)
Theorem final_value_deterministic
    (sched1 sched2 : scheduler) (input : CounterState) :
  invoke sched1 graph input = invoke sched2 graph input
  ∧ ∃ final,
      outcome (invoke sched1 graph initial_state) = Ok final
      ∧ outcome (invoke sched2 graph initial_state) = Ok final
      ∧ final !! "counter" = Some (VInt 10000).
Proof.
  split.
  - destruct (apply_writes graph (init_channels graph) [input])
      as [chans|e] eqn:Hin.
    + destruct (input_counter _ _ Hin) as [c Hc].
      by rewrite !(invoke_final _ _ _ c Hin Hc).
    + unfold invoke. by rewrite Hin.
  - rewrite !(invoke_final _ _ _ 0 input_initial_state) by done.
    eexists. split_and!; [reflexivity..|].
    by rewrite lookup_insert_ne, lookup_insert_eq.
Qed.

(** C6, as the script behaves.  With a fan-out of 0 the router returns no
    [Send], so the edge into the collector never fires: neither the collector
    nor the check runs, and the run ends without error right after the
    routing line in the state it started from.  The counter is still 0 and
    no message is produced, whatever total the check expects. *)
Theorem zero_fan_out_ends_after_routing
    (sched : scheduler) (fuel : nat) (state : CounterState) :
  (1 ≤ fuel)%nat →
  state !! "tasks_to_spawn" = Some (VInt 0) →
  state !! "counter" = Some (VInt 0) →
  outcome (spawn_router state) = Ok []
  ∧ (∃ final,
       run_scattered sched fuel state =
         (["Routing... Spawning tasks."], Ok final)
       ∧ final = state
       ∧ final !! "counter" = Some (VInt 0))
  ∧ ∀ expected_total,
      run_scattered_in (graph_expecting expected_total) sched fuel state =
        (["Routing... Spawning tasks."], Ok state).
Proof.
  intros Hfuel Ht Hc. split_and!.
  - by rewrite (spawn_router_sends _ 0 Ht).
  - exists state. split_and!; [|done..].
    by apply (run_scattered_nonpositive _ _ _ 0).
  - intros expected_total. unfold run_scattered_in.
    rewrite (spawn_router_sends _ 0 Ht), bind_ok.
    destruct fuel as [|fuel]; [lia|]. reflexivity.
Qed.

Lemma zero_fan_out_ends_after_routing_witness :
  let state : CounterState :=
    <[ "tasks_to_spawn" := VInt 0 ]> (init_channels graph) in
  outcome (spawn_router state) = Ok []
  ∧ (∃ final,
       run_scattered lifo recursion_limit state =
         (["Routing... Spawning tasks."], Ok final)
       ∧ final = state
       ∧ final !! "counter" = Some (VInt 0))
  ∧ ∀ expected_total,
      run_scattered_in (graph_expecting expected_total) lifo recursion_limit
                       state =
        (["Routing... Spawning tasks."], Ok state).
Proof.
  intros state.
  apply (zero_fan_out_ends_after_routing lifo recursion_limit state);
    [unfold recursion_limit; lia | reflexivity | reflexivity].
Defined.

(** C6 as stated fails.  Take the fan-out 0 and a check that expects the
    total 0: the run ends with the counter at 0, but the check is never
    reached, so the final state carries no message and no success is
    reported. *)
Lemma zero_fan_out_no_outcome :
  let state : CounterState :=
    <[ "tasks_to_spawn" := VInt 0 ]> (init_channels graph) in
  let run := run_scattered_in (graph_expecting 0) fifo recursion_limit state in
  (∃ final, outcome run = Ok final ∧ final !! "counter" = Some (VInt 0))
  ∧ output run = ["Routing... Spawning tasks."]
  ∧ ¬ (∃ final msg,
         outcome run = Ok final
         ∧ message_of final = Some msg
         ∧ succeeded msg = true).
Proof.
  intros state run.
  assert (Hrun : run = (["Routing... Spawning tasks."], Ok state)).
  { unfold run, run_scattered_in.
    by rewrite (spawn_router_sends state 0), bind_ok by apply lookup_insert_eq. }
  rewrite Hrun. split_and!.
  - by exists state.
  - done.
  - intros (final & msg & Hfinal & Hmsg & _).
    injection Hfinal as <-. unfold message_of in Hmsg.
    by change (state !! "message") with (@None value) in Hmsg.
Qed.

(** C7.  [increment_node] ignores the state it is given: it prints nothing,
    raises nothing and returns the contribution [{"counter": 1}]; so does the
    task the router spawns, whatever the state of the graph. *)
Theorem increment_node_constant :
  (∀ state : CounterState,
     increment_node state = ([], Ok {[ "counter" := VInt 1 ]}))
  ∧ (∀ state state' : CounterState,
       increment_node state = increment_node state')
  ∧ (∀ chans : CounterState,
       run_task graph chans (Push increment_send) =
         ([], Ok ({[ "counter" := VInt 1 ]}, []))).
Proof. split_and!; [done | done | apply run_task_increment]. Qed.

(** C8, as the script behaves.  A run of the graph prints exactly four
    lines, under every scheduler: the first node's announcement, the routing
    announcement, the collector's announcement and the comparison line; the
    increment tasks print nothing. *)
Theorem run_prints_four_lines (sched : scheduler) :
  output (invoke sched graph initial_state) =
    [ "Node: prepare_tasks";
      "Routing... Spawning tasks.";
      "Node: collector (all increments complete)";
      "Node: result (Expected=10000, Got=10000)" ].
Proof. by rewrite (invoke_final sched _ _ 0 input_initial_state). Qed.

(** C8 as stated fails: the run prints four lines, not three, the first of
    which is none of the three announced. *)
Lemma run_does_not_print_three_lines :
  length (output (invoke fifo graph initial_state)) ≠ 3%nat
  ∧ head (output (invoke fifo graph initial_state)) = Some "Node: prepare_tasks".
Proof. by rewrite (invoke_final fifo _ _ 0 input_initial_state). Qed.

(** C9.  For every integer [tasks_to_spawn <= 0] the router prints its line,
    returns the empty list and raises nothing. *)
Theorem spawn_router_nonpositive (state : CounterState) (n : Z) :
  state !! "tasks_to_spawn" = Some (VInt n) →
  n ≤ 0 →
  spawn_router state = (["Routing... Spawning tasks."], Ok []).
Proof.
  intros Ht Hn. rewrite (spawn_router_sends _ n Ht).
  by replace (Z.to_nat n) with 0%nat by lia.
Qed.

Lemma spawn_router_nonpositive_witness :
  let state : CounterState := {[ "tasks_to_spawn" := VInt (-7) ]} in
  state !! "tasks_to_spawn" = Some (VInt (-7))
  ∧ -7 ≤ 0
  ∧ spawn_router state = (["Routing... Spawning tasks."], Ok []).
Proof.
  intros state. split_and!; [reflexivity | lia |].
  apply (spawn_router_nonpositive state (-7)); [reflexivity | lia].
Defined.

(** C10.  On every state without a [counter] field [result_node] takes the
    counter to be 0 and returns the failure message, raising nothing. *)
Theorem result_node_missing_counter (state : CounterState) :
  state !! "counter" = None →
  result_node state =
    (["Node: result (Expected=10000, Got=0)"],
     Ok {[ "message" := VStr "❌ Failure! Expected 10000, but got 0." ]}).
Proof.
  intros Hc. unfold result_node, dict_get. rewrite Hc. reflexivity.
Qed.

Lemma result_node_missing_counter_witness :
  let state : CounterState := {[ "tasks_to_spawn" := VInt 10000 ]} in
  state !! "counter" = None
  ∧ result_node state =
      (["Node: result (Expected=10000, Got=0)"],
       Ok {[ "message" := VStr "❌ Failure! Expected 10000, but got 0." ]}).
Proof.
  intros state. split; [reflexivity|].
  apply (result_node_missing_counter state). reflexivity.
Defined.

(** * Further properties of the script *)

(** ** The verification block

    X12.  Under every scheduler the script prints the four lines of the run,
    the banner, the success message and the final counter, and ends without
    an exception. *)
Lemma main_prints (sched : scheduler) :
  main sched =
    ([ "Node: prepare_tasks";
       "Routing... Spawning tasks.";
       "Node: collector (all increments complete)";
       "Node: result (Expected=10000, Got=10000)";
       newline +:+ "==============================";
       "      FINAL EXECUTION RESULT";
       "==============================";
       "✅ Success! Counter reached 10000 as expected.";
       "Final counter value: 10000" ],
     Ok tt).
Proof.
  unfold main. rewrite (invoke_final sched _ _ 0 input_initial_state) by done.
  rewrite bind_ok, !bind_print. unfold subscript.
  rewrite lookup_insert_eq, bind_mret, bind_print.
  rewrite lookup_insert_ne, lookup_insert_eq, bind_mret by done.
  reflexivity.
Qed.

(** ** The router *)

(** X1.  Without a [tasks_to_spawn] field the router prints its line and
    then raises [KeyError] on that key; no [Send] is produced. *)
Theorem spawn_router_missing_key (state : CounterState) :
  state !! "tasks_to_spawn" = None →
  spawn_router state =
    (["Routing... Spawning tasks."], Raise (KeyError "tasks_to_spawn")).
Proof.
  intros Ht. unfold spawn_router, subscript. rewrite Ht.
  by rewrite bind_print.
Qed.

Lemma spawn_router_missing_key_witness :
  let state : CounterState := {[ "counter" := VInt 0 ]} in
  state !! "tasks_to_spawn" = None
  ∧ spawn_router state =
      (["Routing... Spawning tasks."], Raise (KeyError "tasks_to_spawn")).
Proof.
  intros state. split; [reflexivity|].
  apply (spawn_router_missing_key state). reflexivity.
Defined.

(** X2.  When [tasks_to_spawn] holds a string, [range] rejects it: the
    router prints its line and raises [TypeError]. *)
Theorem spawn_router_not_an_integer (state : CounterState) (s : string) :
  state !! "tasks_to_spawn" = Some (VStr s) →
  spawn_router state = (["Routing... Spawning tasks."], Raise TypeError).
Proof.
  intros Ht. unfold spawn_router, subscript. rewrite Ht.
  by rewrite bind_print, bind_mret.
Qed.

Lemma spawn_router_not_an_integer_witness :
  let state : CounterState := {[ "tasks_to_spawn" := VStr "3" ]} in
  state !! "tasks_to_spawn" = Some (VStr "3")
  ∧ spawn_router state = (["Routing... Spawning tasks."], Raise TypeError).
Proof.
  intros state. split; [reflexivity|].
  apply (spawn_router_not_an_integer state "3"). reflexivity.
Defined.

(** X3.  For every integer [n] the router returns exactly [max 0 n]
    commands, every one of them [Send("increment", {})]. *)
Theorem spawn_router_count (state : CounterState) (n : Z) :
  state !! "tasks_to_spawn" = Some (VInt n) →
  ∃ sends,
    spawn_router state = (["Routing... Spawning tasks."], Ok sends)
    ∧ Z.of_nat (length sends) = Z.max 0 n
    ∧ ∀ s, s ∈ sends → s = mkSend "increment" ∅.
Proof.
  intros Ht. rewrite (spawn_router_sends _ n Ht). eexists. split; [done|].
  rewrite length_replicate. split; [lia|].
  intros s Hs. by apply elem_of_replicate_inv in Hs.
Qed.

Lemma spawn_router_count_witness :
  let state : CounterState := {[ "tasks_to_spawn" := VInt 5 ]} in
  ∃ sends,
    spawn_router state = (["Routing... Spawning tasks."], Ok sends)
    ∧ Z.of_nat (length sends) = Z.max 0 5
    ∧ ∀ s, s ∈ sends → s = mkSend "increment" ∅.
Proof.
  intros state. apply (spawn_router_count state 5). reflexivity.
Defined.

(** X4.  Whatever the state, every command the router returns targets a
    destination declared on the conditional edge that carries the router, and
    that destination is the registered node [increment_node]. *)
Theorem spawn_router_targets_declared (state : CounterState) (sends : list Send) :
  outcome (spawn_router state) = Ok sends →
  ∀ s, s ∈ sends →
    (∃ path_map,
       ("prepare_tasks", spawn_router, path_map) ∈ branches graph
       ∧ send_node s ∈ path_map)
    ∧ nodes graph !! send_node s = Some increment_node.
Proof.
  intros Hs s Hin.
  destruct (spawn_router_ok_inv _ _ Hs) as (n & _ & ->).
  apply elem_of_replicate_inv in Hin as ->. split; [|reflexivity].
  exists ["increment"]. rewrite graph_branches.
  split; apply list_elem_of_singleton; reflexivity.
Qed.

Lemma spawn_router_targets_declared_witness :
  let state : CounterState := {[ "tasks_to_spawn" := VInt 2 ]} in
  let sends := [mkSend "increment" ∅; mkSend "increment" ∅] in
  outcome (spawn_router state) = Ok sends
  ∧ ∀ s, s ∈ sends →
      (∃ path_map,
         ("prepare_tasks", spawn_router, path_map) ∈ branches graph
         ∧ send_node s ∈ path_map)
      ∧ nodes graph !! send_node s = Some increment_node.
Proof.
  intros state sends. split; [reflexivity|].
  apply (spawn_router_targets_declared state sends). reflexivity.
Defined.

(** ** The check *)

Lemma string_length_app (s t : string) :
  String.length (s +:+ t) = (String.length s + String.length t)%nat.
Proof. induction s as [|a s IH]; simpl; [done | by rewrite IH]. Qed.

Lemma string_app_inj_r (s1 s2 t : string) : s1 +:+ t = s2 +:+ t → s1 = s2.
Proof.
  revert s2. induction s1 as [|a s1 IH]; intros [|b s2] H; simpl in H.
  - done.
  - apply (f_equal String.length) in H.
    change (String b s2 +:+ t) with (String b (s2 +:+ t)) in H.
    cbn [String.length] in H. rewrite !string_length_app in H.
    cbn [String.length] in H. lia.
  - apply (f_equal String.length) in H.
    change (String a s1 +:+ t) with (String a (s1 +:+ t)) in H.
    cbn [String.length] in H. rewrite !string_length_app in H.
    cbn [String.length] in H. lia.
  - injection H as -> H'. f_equal. by apply IH.
Qed.

Lemma check_message_inj (c c' : Z) : check_message c = check_message c' → c = c'.
Proof.
  unfold check_message. do 2 case_bool_decide; subst; intros Hm.
  - done.
  - discriminate Hm.
  - discriminate Hm.
  - apply (inj (String.app _)) in Hm.
    apply string_app_inj_r in Hm. by apply (inj pretty) in Hm.
Qed.

Lemma succeeded_check_message (c : Z) :
  succeeded (check_message c) = bool_decide (c = 10000).
Proof. unfold check_message. by case_bool_decide; subst. Qed.

(** X5.  [result_node] reads nothing but the [counter] field: two states
    that agree on it get the same line and the same message.  It never
    raises, prints one line and writes the single field [message]. *)
Theorem result_node_reads_counter_only (state state' : CounterState) :
  state !! "counter" = state' !! "counter" →
  result_node state = result_node state'
  ∧ ∃ line msg, result_node state = ([line], Ok {[ "message" := VStr msg ]}).
Proof.
  intros Hc. split; [|apply result_node_writes].
  unfold result_node, dict_get. by rewrite Hc.
Qed.

Lemma result_node_reads_counter_only_witness :
  let state : CounterState :=
    <[ "tasks_to_spawn" := VInt 3 ]> {[ "counter" := VInt 7 ]} in
  let state' : CounterState :=
    <[ "message" := VStr "old" ]> {[ "counter" := VInt 7 ]} in
  result_node state = result_node state'
  ∧ ∃ line msg, result_node state = ([line], Ok {[ "message" := VStr msg ]}).
Proof.
  intros state state'.
  apply (result_node_reads_counter_only state state'). reflexivity.
Defined.

(** X6.  The message identifies the counter: on two states whose integer
    counters differ, [result_node] returns different messages. *)
Theorem result_node_message_identifies_counter
    (state state' : CounterState) (c c' : Z) :
  state !! "counter" = Some (VInt c) →
  state' !! "counter" = Some (VInt c') →
  c ≠ c' →
  outcome (result_node state) ≠ outcome (result_node state').
Proof.
  intros Hc Hc' Hne. rewrite (result_node_int _ c Hc), (result_node_int _ c' Hc').
  unfold outcome. cbn [snd]. intros H. apply Hne, check_message_inj.
  apply (f_equal (λ r : result CounterState,
                    match r with
                    | Ok m => m !! "message"
                    | Raise _ => None
                    end)) in H.
  rewrite !lookup_singleton_eq in H. by injection H.
Qed.

Lemma result_node_message_identifies_counter_witness :
  let state : CounterState := {[ "counter" := VInt 9999 ]} in
  let state' : CounterState := {[ "counter" := VInt 99990 ]} in
  outcome (result_node state) ≠ outcome (result_node state').
Proof.
  intros state state'.
  apply (result_node_message_identifies_counter state state' 9999 99990);
    [reflexivity | reflexivity | lia].
Defined.

(** ** The reducer of the counter *)

(** X13.  Integer contributions of any size written to [counter] in one
    step are merged into their sum added to the counter, and every other
    order of the same contributions gives the same state. *)
Theorem counter_reducer_order_independent
    (chans : CounterState) (c0 : Z) (cs cs' : list Z) :
  chans !! "counter" = Some (VInt c0) →
  cs ≡ₚ cs' →
  apply_writes graph chans (counter_writes cs) =
    Ok (<[ "counter" := VInt (c0 + sum_list_Z cs) ]> chans)
  ∧ apply_writes graph chans (counter_writes cs') =
      apply_writes graph chans (counter_writes cs).
Proof.
  intros Hc Hp. split.
  - by apply apply_writes_counter.
  - by apply (apply_writes_counter_perm _ c0).
Qed.

Lemma counter_reducer_order_independent_witness :
  let chans : CounterState := {[ "counter" := VInt 10 ]} in
  apply_writes graph chans (counter_writes [1; -4; 7]) =
    Ok (<[ "counter" := VInt (10 + sum_list_Z [1; -4; 7]) ]> chans)
  ∧ apply_writes graph chans (counter_writes [7; 1; -4]) =
      apply_writes graph chans (counter_writes [1; -4; 7]).
Proof.
  intros chans.
  apply (counter_reducer_order_independent chans 10 [1; -4; 7] [7; 1; -4]);
    [reflexivity|].
  symmetry. apply (Permutation_cons_append [1; -4] 7).
Defined.

(** ** Runs on any input *)

Lemma update_last_value_single (cur : option value) (input : CounterState)
    (k : string) :
  ∃ v, update_channel LastValue cur
         (omap (λ w : CounterState, w !! k) [input]) = Ok v.
Proof.
  cbn [omap list_omap]. destruct (input !! k); cbn; eauto.
Qed.

(** The input is merged without error when its counter is an integer or is
    absent, and the counter channel then holds that integer. *)
Lemma input_merge_ok (input : CounterState) (c : Z) :
  dict_get input "counter" (VInt 0) = VInt c →
  ∃ chans,
    apply_writes graph (init_channels graph) [input] = Ok chans
    ∧ chans !! "counter" = Some (VInt c).
Proof.
  intros Hc.
  assert (Hmerge : ∃ chans,
            apply_writes graph (init_channels graph) [input] = Ok chans).
  { unfold apply_writes. rewrite graph_schema. unfold CounterState_schema.
    rewrite apply_fields_cons.
    change (init_channels graph !! "counter") with (Some (VInt 0)).
    assert (∃ v, update_channel
                   (BinaryOperatorAggregate operator_add (Some (VInt 0)))
                   (Some (VInt 0))
                   (omap (λ w : CounterState, w !! "counter") [input]) = Ok v)
      as [v ->].
    { cbn [omap list_omap]. unfold dict_get in Hc.
      destruct (input !! "counter") as [x|]; cbn in *; [subst x|]; eauto. }
    cbn [mbind result_bind]. rewrite apply_fields_cons.
    destruct (update_last_value_single
                (set_channel "counter" v (init_channels graph) !! "tasks_to_spawn")
                input "tasks_to_spawn") as [v1 ->].
    cbn [mbind result_bind]. rewrite apply_fields_cons.
    destruct (update_last_value_single
                (set_channel "tasks_to_spawn" v1
                   (set_channel "counter" v (init_channels graph)) !! "message")
                input "message") as [v2 ->].
    cbn [mbind result_bind apply_fields]. eauto. }
  destruct Hmerge as [chans Hin]. exists chans. split; [done|].
  revert Hin. unfold apply_writes. rewrite graph_schema.
  unfold CounterState_schema. rewrite apply_fields_cons.
  change (init_channels graph !! "counter") with (Some (VInt 0)).
  assert (Hother : "counter" ∉ [("tasks_to_spawn", LastValue);
                                 ("message", LastValue)].*1).
  { cbn [fmap list_fmap fst]. rewrite !not_elem_of_cons.
    split_and!; [done..|]. apply not_elem_of_nil. }
  cbn [omap list_omap update_channel]. unfold dict_get in Hc.
  destruct (input !! "counter") as [x|]; cbn in Hc;
    [subst x | injection Hc as <-];
    cbn [reduce operator_add mbind result_bind fmap result_fmap set_channel];
    intros Hrest.
  - rewrite (apply_fields_other _ _ _ _ _ Hother Hrest), lookup_insert_eq.
    by rewrite Z.add_0_l.
  - by rewrite (apply_fields_other _ _ _ _ _ Hother Hrest), lookup_insert_eq.
Qed.

(** X7.  The run on any input whose counter is an integer [c] (or is
    absent, [c = 0]) ends without error after four printed lines, with the
    counter at [c + 10000] and [tasks_to_spawn] at 10000 whatever the input
    supplied for it; the message reports success exactly when [c = 0]. *)
Theorem invoke_any_input (sched : scheduler) (input : CounterState) (c : Z) :
  dict_get input "counter" (VInt 0) = VInt c →
  ∃ final msg,
    outcome (invoke sched graph input) = Ok final
    ∧ length (output (invoke sched graph input)) = 4%nat
    ∧ final !! "counter" = Some (VInt (c + 10000))
    ∧ final !! "tasks_to_spawn" = Some (VInt 10000)
    ∧ message_of final = Some msg
    ∧ (succeeded msg = true ↔ c = 0).
Proof.
  intros Hc. destruct (input_merge_ok _ _ Hc) as (chans & Hin & Hcnt).
  rewrite (invoke_final sched _ _ c Hin Hcnt).
  eexists _, (check_message (c + 10000)). split; [reflexivity|].
  split_and!.
  - reflexivity.
  - by rewrite lookup_insert_ne, lookup_insert_eq.
  - by rewrite !lookup_insert_ne, lookup_insert_eq by done.
  - unfold message_of. by rewrite lookup_insert_eq.
  - rewrite succeeded_check_message, bool_decide_eq_true. lia.
Qed.

Lemma invoke_any_input_witness :
  let input : CounterState :=
    <[ "tasks_to_spawn" := VInt 3 ]> {[ "counter" := VInt 5 ]} in
  ∃ final msg,
    outcome (invoke lifo graph input) = Ok final
    ∧ length (output (invoke lifo graph input)) = 4%nat
    ∧ final !! "counter" = Some (VInt (5 + 10000))
    ∧ final !! "tasks_to_spawn" = Some (VInt 10000)
    ∧ message_of final = Some msg
    ∧ (succeeded msg = true ↔ 5 = 0).
Proof.
  intros input. apply (invoke_any_input lifo input 5). reflexivity.
Defined.

(** X8.  An input whose counter is a string cannot be added to the
    counter's initial 0: the run raises [TypeError] before any node has run
    or any line is printed. *)
Theorem invoke_string_counter
    (sched : scheduler) (input : CounterState) (s : string) :
  input !! "counter" = Some (VStr s) →
  invoke sched graph input = ([], Raise TypeError).
Proof.
  intros Hc. unfold invoke, apply_writes. rewrite graph_schema.
  unfold CounterState_schema. rewrite apply_fields_cons.
  change (init_channels graph !! "counter") with (Some (VInt 0)).
  cbn [omap list_omap]. rewrite Hc. reflexivity.
Qed.

Lemma invoke_string_counter_witness :
  let input : CounterState := {[ "counter" := VStr "0" ]} in
  invoke lifo graph input = ([], Raise TypeError).
Proof.
  intros input. apply (invoke_string_counter lifo input "0"). reflexivity.
Defined.

(** ** Runs of any width *)

(** X9.  The number of lines a run prints does not depend on the number of
    tasks: for every fan-out [n > 0] the run from the conditional edge prints
    the routing line, the collector's line once, and the comparison line
    showing the counter reached. *)
Theorem run_prints_collector_once
    (sched : scheduler) (fuel : nat) (state : CounterState) (n c0 : Z) :
  (3 ≤ fuel)%nat →
  0 < n →
  state !! "tasks_to_spawn" = Some (VInt n) →
  state !! "counter" = Some (VInt c0) →
  output (run_scattered sched fuel state) =
    [ "Routing... Spawning tasks.";
      "Node: collector (all increments complete)";
      "Node: result (Expected=10000, Got=" +:+ pretty (c0 + n) +:+ ")" ].
Proof.
  intros Hfuel Hn Ht Hc. by rewrite (run_scattered_output _ _ _ n c0).
Qed.

Lemma run_prints_collector_once_witness :
  let state : CounterState :=
    <[ "tasks_to_spawn" := VInt 6 ]> {[ "counter" := VInt 1 ]} in
  output (run_scattered lifo recursion_limit state) =
    [ "Routing... Spawning tasks.";
      "Node: collector (all increments complete)";
      "Node: result (Expected=10000, Got=" +:+ pretty (1 + 6) +:+ ")" ].
Proof.
  intros state.
  apply (run_prints_collector_once lifo recursion_limit state 6 1);
    [unfold recursion_limit; lia | lia | reflexivity | reflexivity].
Defined.

(** X10.  For every fan-out [n > 0] and integer starting counter [c0] the
    run, under a step budget of 4 or more, ends with a message, and that
    message reports success exactly when [c0 + n] is 10000. *)
Theorem run_succeeds_iff_total_is_expected
    (sched : scheduler) (fuel : nat) (state : CounterState) (n c0 : Z) :
  (4 ≤ fuel)%nat →
  0 < n →
  state !! "tasks_to_spawn" = Some (VInt n) →
  state !! "counter" = Some (VInt c0) →
  ∃ final msg,
    outcome (run_scattered sched fuel state) = Ok final
    ∧ message_of final = Some msg
    ∧ (succeeded msg = true ↔ c0 + n = 10000).
Proof.
  intros Hfuel Hn Ht Hc. rewrite (run_scattered_final _ _ _ n c0) by done.
  eexists _, (check_message (c0 + n)). split_and!.
  - reflexivity.
  - unfold message_of. by rewrite lookup_insert_eq.
  - by rewrite succeeded_check_message, bool_decide_eq_true.
Qed.

Lemma run_succeeds_iff_total_is_expected_witness :
  let state : CounterState :=
    <[ "tasks_to_spawn" := VInt 4 ]> {[ "counter" := VInt 9996 ]} in
  ∃ final msg,
    outcome (run_scattered lifo recursion_limit state) = Ok final
    ∧ message_of final = Some msg
    ∧ (succeeded msg = true ↔ 9996 + 4 = 10000).
Proof.
  intros state.
  apply (run_succeeds_iff_total_is_expected lifo recursion_limit state 4 9996);
    [unfold recursion_limit; lia | lia | reflexivity | reflexivity].
Defined.

(** X11.  Whatever the integer fan-out, the run from the conditional edge,
    under a step budget of 4 or more, ends without error and changes no
    field of the state other than [counter] and [message]. *)
Theorem run_changes_counter_and_message_only
    (sched : scheduler) (fuel : nat) (state : CounterState) (n c0 : Z) :
  (4 ≤ fuel)%nat →
  state !! "tasks_to_spawn" = Some (VInt n) →
  state !! "counter" = Some (VInt c0) →
  ∃ final,
    outcome (run_scattered sched fuel state) = Ok final
    ∧ ∀ k, k ≠ "counter" → k ≠ "message" → final !! k = state !! k.
Proof.
  intros Hfuel Ht Hc. destruct (decide (n ≤ 0)) as [Hle|Hpos].
  - rewrite (run_scattered_nonpositive _ _ _ n) by (done || lia).
    by exists state.
  - rewrite (run_scattered_final _ _ _ n c0) by (done || lia).
    eexists. split; [reflexivity|]. intros k Hk1 Hk2.
    by rewrite !lookup_insert_ne.
Qed.

Lemma run_changes_counter_and_message_only_witness :
  let state : CounterState :=
    <[ "tasks_to_spawn" := VInt 2 ]> {[ "counter" := VInt 0 ]} in
  ∃ final,
    outcome (run_scattered lifo recursion_limit state) = Ok final
    ∧ ∀ k, k ≠ "counter" → k ≠ "message" → final !! k = state !! k.
Proof.
  intros state.
  apply (run_changes_counter_and_message_only lifo recursion_limit state 2 0);
    [unfold recursion_limit; lia | reflexivity | reflexivity].
Defined.
